(** * SFTWrapper: the typed proxy of a remote semi-fungible-token contract

    Shallow embedding of
    [smart-contracts/assembly/contracts/SFT/SFTWrapper.ts].

    The wrapper is a class with one field, [_origin], and eleven methods.
    Each method builds an argument buffer, hands it to the [call] primitive
    of the execution environment with a coin amount, and decodes (or drops)
    the bytes that come back.

    Conventions of the embedding:
    - a [u64] is a [Z]; the encoder writes it modulo [2^64];
    - a byte buffer ([StaticArray<u8>]) is a [list byte];
    - a [string] is the Rocq [string] of its UTF-8 bytes.  The only character
      the wrapper looks at is the comma, an ASCII character whose byte never
      occurs inside a multi-byte UTF-8 sequence, so comparing with [''] and
      splitting on [','] are the same on the byte string;
    - the remote side is a parameter: a type of worlds and a transition
      function answering one request;
    - the methods run in a state/error monad whose runs also report the
      events they performed (the requests sent with their answers, and the
      decodes applied to a response). *)

From Stdlib Require Import ZArith List String Ascii Bool Lia.
From Stdlib Require Import Strings.Byte.
Import ListNotations.

Local Open Scope Z_scope.

(** ** Results of fallible computations *)

Inductive Result (E A : Type) : Type :=
| Ok (a : A)
| Err (e : E).

Arguments Ok {E A} a.
Arguments Err {E A} e.

Definition result_map {E A B : Type} (f : A -> B) (r : Result E A) : Result E B :=
  match r with
  | Ok a => Ok (f a)
  | Err e => Err e
  end.

Definition result_bind {E A B : Type} (r : Result E A) (k : A -> Result E B)
  : Result E B :=
  match r with
  | Ok a => k a
  | Err e => Err e
  end.

(** ** The serialization library ([@massalabs/as-types])

    [Args], [NoArg], [bytesToString] and [bytesToU64] are imported by the
    wrapper; their code is not part of the wrapper's file. *)

Module AsTypes.

Definition bytes : Type := list byte.
Definition u64 : Type := Z.

Definition U64_BYTES : nat := 8.

(** Modelled from the spec: the width of the "fixed-width unsigned integer
    prefix" of a string is missing from the wrapper's file; the spec fixes
    no number, a 32-bit prefix is taken. *)
Definition LEN_BYTES : nat := 4.

Definition byte_of_Z (n : Z) : byte :=
  match Byte.of_N (Z.to_N (n mod 256)) with
  | Some b => b
  | None => x00
  end.

Definition Z_of_byte (b : byte) : Z := Z.of_N (Byte.to_N b).

(** Modelled from the spec: the fixed-width integer field, missing from the
    wrapper's file.  "encode as a fixed 8-byte little-endian (or any single
    consistently-chosen endianness) field": [width] bytes, least
    significant first, of [n] modulo [256^width]. *)
Fixpoint le_encode (width : nat) (n : Z) : bytes :=
  match width with
  | O => []
  | S w => byte_of_Z n :: le_encode w (n / 256)
  end.

Fixpoint le_decode (bs : bytes) : Z :=
  match bs with
  | [] => 0
  | b :: rest => Z_of_byte b + 256 * le_decode rest
  end.

(** Modelled from the spec: the error taxonomy of a malformed response,
    missing from the wrapper's file.  "fewer bytes than the expected fixed
    width for a numeric decode, or a string length prefix exceeding the
    remaining buffer". *)
Inductive DecodeError : Type :=
| TruncatedNumber
| StringOverrun.

Definition Decoded (A : Type) : Type := Result DecodeError A.

(** Modelled from the spec: the argument buffer builder [Args], missing
    from the wrapper's file.  "an ordered sequence of serialized values,
    built incrementally by appending typed values in call order". *)
Record Args : Type := mkArgs { serialized : bytes }.

(** [new Args()] *)
Definition new_Args : Args := mkArgs [].

(** Modelled from the spec: the constant [NoArg], missing from the
    wrapper's file.  "No-argument calls use a distinguished empty buffer,
    never a buffer containing a zero count field". *)
Definition NoArg : Args := mkArgs [].

(** The values [Args.add<T>] accepts. *)
Class Serializable (T : Type) : Type := { to_bytes : T -> bytes }.

(** Modelled from the spec: the encoding of a string, missing from the
    wrapper's file.  "encode length (fixed-width unsigned integer prefix)
    followed by raw UTF-8 bytes". *)
#[export] Instance Serializable_string : Serializable string :=
  {| to_bytes := fun s =>
       le_encode LEN_BYTES (Z.of_nat (List.length (list_byte_of_string s)))
         ++ list_byte_of_string s |}.

(** Modelled from the spec: the encoding of a 64-bit unsigned integer,
    missing from the wrapper's file.  "a fixed 8-byte little-endian
    field". *)
#[export] Instance Serializable_u64 : Serializable u64 :=
  {| to_bytes := fun n => le_encode U64_BYTES n |}.

(** Modelled from the spec: the fluent [add], missing from the wrapper's
    file.  "Values are appended strictly in call-signature order; the
    Encoder exposes a fluent add operation returning the in-progress
    buffer builder". *)
Definition add {T : Type} `{Serializable T} (a : Args) (x : T) : Args :=
  mkArgs (serialized a ++ to_bytes x).

Definition serialize (a : Args) : bytes := serialized a.

(** Reading one fixed-width integer from the start of a buffer; the rest
    of the buffer is returned with it. *)
Definition next_uint (width : nat) (bs : bytes) : Decoded (Z * bytes) :=
  if (List.length bs <? width)%nat then Err TruncatedNumber
  else Ok (le_decode (firstn width bs), skipn width bs).

Definition next_u64 (bs : bytes) : Decoded (u64 * bytes) :=
  next_uint U64_BYTES bs.

(** Reading one length-prefixed string from the start of a buffer. *)
Definition next_string (bs : bytes) : Decoded (string * bytes) :=
  result_bind (next_uint LEN_BYTES bs) (fun '(len, rest) =>
    if (List.length rest <? Z.to_nat len)%nat then Err StringOverrun
    else Ok (string_of_list_byte (firstn (Z.to_nat len) rest),
             skipn (Z.to_nat len) rest)).

(** Modelled from the spec: [bytesToString], missing from the wrapper's
    file.  "read the length-prefixed string from the start of the buffer;
    if the buffer is empty, the decoded string is the empty string"; a
    prefix that is cut short or that exceeds the remaining buffer is a
    decode failure. *)
Definition bytesToString (arr : bytes) : Decoded string :=
  match arr with
  | [] => Ok EmptyString
  | _ :: _ => result_map fst (next_string arr)
  end.

(** Modelled from the spec: [bytesToU64], missing from the wrapper's file.
    "read exactly 8 bytes from the start of the buffer as the fixed-width
    integer"; with fewer than 8 bytes "it must surface a decode error". *)
Definition bytesToU64 (arr : bytes) : Decoded u64 :=
  result_map fst (next_u64 arr).

(** Decoding a buffer against a known sequence of field types, as a callee
    that shares the convention does. *)
Inductive FieldType : Type := TString | TU64.

Inductive Field : Type :=
| FString (s : string)
| FU64 (n : u64).

Fixpoint decode_fields (schema : list FieldType) (bs : bytes)
  : Decoded (list Field) :=
  match schema with
  | [] => Ok []
  | TString :: schema' =>
      result_bind (next_string bs) (fun '(s, rest) =>
        result_map (cons (FString s)) (decode_fields schema' rest))
  | TU64 :: schema' =>
      result_bind (next_u64 bs) (fun '(n, rest) =>
        result_map (cons (FU64 n)) (decode_fields schema' rest))
  end.

End AsTypes.

Import AsTypes.

(** ** [String.prototype.split] with a one-character separator

    The segments between the occurrences of the separator, from left to
    right; a string without separator is its own single segment, and the
    empty string has the single segment [""].  The optional limit of the
    built-in defaults to the largest [i32], more than a string can hold
    characters, and is left out. *)

Definition extend_first (c : ascii) (segments : list string) : list string :=
  match segments with
  | [] => [String c EmptyString]
  | seg :: segments' => String c seg :: segments'
  end.

Fixpoint split (separator : ascii) (s : string) : list string :=
  match s with
  | EmptyString => [EmptyString]
  | String c s' =>
      if Ascii.eqb c separator then EmptyString :: split separator s'
      else extend_first c (split separator s')
  end.

Definition COMMA : ascii := ","%char.

(** Number of occurrences of a character in a string. *)
Fixpoint occurrences (c : ascii) (s : string) : nat :=
  match s with
  | EmptyString => O
  | String d s' => ((if Ascii.eqb d c then 1 else 0) + occurrences c s')%nat
  end.

Definition free_of (c : ascii) (s : string) : Prop := occurrences c s = O.

(** ** Stand-ins for the remote side

    A remote side that answers every request with the same bytes, and one
    that fails every request with the same error; neither changes the
    world. *)

Definition answering {W Req E : Type} (response : bytes) (w : W) (_ : Req)
  : Result E bytes * W :=
  (Ok response, w).

Definition failing {W Req E : Type} (e : E) (w : W) (_ : Req)
  : Result E bytes * W :=
  (Err e, w).

(** ** The execution environment and the wrapper *)

Section Wrapper.

(** The identities of contracts ([Address]), the errors of the transport
    and the remote side are left abstract. *)
Variable Address : Type.
Variable RemoteError : Type.

(** What reaches the execution environment when [call] is invoked:
    [call(target, entryPoint, payload, transferAmount)]. *)
Record CallRecord : Type := mkCallRecord {
  target : Address;
  entryPoint : string;
  payload : bytes;
  transferAmount : u64
}.

(** The remote side: from a world and a request, either an error or the
    response bytes, and the world after the exchange. *)
Variable World : Type.
Variable env_call : World -> CallRecord -> Result RemoteError bytes * World.

(** [class SFTWrapper { _origin: Address; ... }] *)
Record SFTWrapper : Type := mkSFTWrapper { _origin : Address }.

(** [constructor(at: Address) { this._origin = at; }] *)
Definition constructor (at_ : Address) : SFTWrapper := mkSFTWrapper at_.

Record State : Type := mkState {
  this : SFTWrapper;
  world : World
}.

Inductive Failure : Type :=
| Transport (e : RemoteError)
| Decode (d : DecodeError).

Inductive Event : Type :=
| EvCall (request : CallRecord) (answer : Result RemoteError bytes)
| EvDecode (input : bytes).

(** One run of a method: how it ended, the state it left, what it did. *)
Record Run (A : Type) : Type := mkRun {
  outcome : Result Failure A;
  final : State;
  emitted : list Event
}.

Arguments mkRun {A} _ _ _.
Arguments outcome {A} _.
Arguments final {A} _.
Arguments emitted {A} _.

Definition M (A : Type) : Type := State -> Run A.

Definition ret {A : Type} (a : A) : M A :=
  fun st => mkRun (Ok a) st [].

Definition bind {A B : Type} (m : M A) (k : A -> M B) : M B :=
  fun st =>
    let r := m st in
    match outcome r with
    | Ok a =>
        let r' := k a (final r) in
        mkRun (outcome r') (final r') (emitted r ++ emitted r')
    | Err e => mkRun (Err e) (final r) (emitted r)
    end.

Notation "x <- m ;; k" := (bind m (fun x => k))
  (at level 100, m at next level, right associativity).

Definition fmap {A B : Type} (f : A -> B) (m : M A) : M B :=
  x <- m ;; ret (f x).

(** Reading the field [this._origin]. *)
Definition this_origin : M Address :=
  fun st => mkRun (Ok (_origin (this st))) st [].

(** Modelled from the spec: the call primitive [call] of
    [@massalabs/massa-as-sdk], missing from the wrapper's file.
    "call(target: Identity, entryPoint: string, payload: bytes,
    transferAmount: u64) -> bytes; fails (propagated to the Proxy caller) if
    the target is unreachable, the entry point does not exist, or the remote
    execution fails". *)
Definition call (at_ : Address) (functionName : string) (args : Args)
  (coins : u64) : M bytes :=
  fun st =>
    let request := mkCallRecord at_ functionName (serialize args) coins in
    let (answer, world') := env_call (world st) request in
    mkRun (match answer with
           | Ok response => Ok response
           | Err e => Err (Transport e)
           end)
          (mkState (this st) world')
          [EvCall request answer].

(** Applying a decoder of the serialization library to a response. *)
Definition decode {A : Type} (decoder : bytes -> Decoded A) (arr : bytes)
  : M A :=
  fun st =>
    mkRun (match decoder arr with
           | Ok a => Ok a
           | Err d => Err (Decode d)
           end)
          st
          [EvDecode arr].

(** *** The eleven methods *)

Definition name : M string :=
  at_ <- this_origin ;;
  response <- call at_ "name" NoArg 0 ;;
  decode bytesToString response.

Definition symbol : M string :=
  at_ <- this_origin ;;
  response <- call at_ "symbol" NoArg 0 ;;
  decode bytesToString response.

Definition tokenURI (tokenId : u64) : M string :=
  at_ <- this_origin ;;
  response <- call at_ "tokenURI" (add new_Args tokenId) 0 ;;
  decode bytesToString response.

Definition baseURI : M string :=
  at_ <- this_origin ;;
  response <- call at_ "baseURI" NoArg 0 ;;
  decode bytesToString response.

Definition totalSupply : M u64 :=
  at_ <- this_origin ;;
  response <- call at_ "totalSupply" NoArg 0 ;;
  decode bytesToU64 response.

Definition currentSupply : M u64 :=
  at_ <- this_origin ;;
  response <- call at_ "currentSupply" NoArg 0 ;;
  decode bytesToU64 response.

Definition mint (addressTo : string) : M unit :=
  at_ <- this_origin ;;
  _ <- call at_ "mint" (add new_Args addressTo) 0 ;;
  ret tt.

Definition transfer (toAddress : string) (tokenId amount : u64) : M unit :=
  at_ <- this_origin ;;
  _ <- call at_ "transfer"
         (add (add (add new_Args toAddress) tokenId) amount) 0 ;;
  ret tt.

Definition approve (tokenId : u64) (address : string) : M unit :=
  at_ <- this_origin ;;
  _ <- call at_ "approve" (add (add new_Args tokenId) address) 0 ;;
  ret tt.

Definition transferFrom (fromAddress toAddress : string) (tokenId : u64)
  : M unit :=
  at_ <- this_origin ;;
  _ <- call at_ "transferFrom"
         (add (add (add new_Args fromAddress) toAddress) tokenId) 0 ;;
  ret tt.

Definition getApproved (tokenId : u64) : M (list string) :=
  at_ <- this_origin ;;
  response <- call at_ "getApproved" (add new_Args tokenId) 0 ;;
  addresses <- decode bytesToString response ;;
  if String.eqb addresses "" then ret []
  else ret (split COMMA addresses).

(** *** The proxy surface as one type

    An operation with its arguments, and what it hands back, so that a
    statement can range over the eleven methods. *)

Inductive Operation : Type :=
| OpName
| OpSymbol
| OpTokenURI (tokenId : u64)
| OpBaseURI
| OpTotalSupply
| OpCurrentSupply
| OpMint (addressTo : string)
| OpTransfer (toAddress : string) (tokenId amount : u64)
| OpApprove (tokenId : u64) (address : string)
| OpTransferFrom (fromAddress toAddress : string) (tokenId : u64)
| OpGetApproved (tokenId : u64).

Inductive Returned : Type :=
| RString (s : string)
| RU64 (n : u64)
| RVoid
| RAddresses (l : list string).

Definition invoke (op : Operation) : M Returned :=
  match op with
  | OpName => fmap RString name
  | OpSymbol => fmap RString symbol
  | OpTokenURI tokenId => fmap RString (tokenURI tokenId)
  | OpBaseURI => fmap RString baseURI
  | OpTotalSupply => fmap RU64 totalSupply
  | OpCurrentSupply => fmap RU64 currentSupply
  | OpMint addressTo => fmap (fun _ => RVoid) (mint addressTo)
  | OpTransfer toAddress tokenId amount =>
      fmap (fun _ => RVoid) (transfer toAddress tokenId amount)
  | OpApprove tokenId address =>
      fmap (fun _ => RVoid) (approve tokenId address)
  | OpTransferFrom fromAddress toAddress tokenId =>
      fmap (fun _ => RVoid) (transferFrom fromAddress toAddress tokenId)
  | OpGetApproved tokenId => fmap RAddresses (getApproved tokenId)
  end.

(** The operations whose result is read with [bytesToString], and how the
    decoded string shows in what each hands back. *)
Definition returns_string (op : Operation) : bool :=
  match op with
  | OpName | OpSymbol | OpTokenURI _ | OpBaseURI | OpGetApproved _ => true
  | _ => false
  end.

Definition string_view (op : Operation) (s : string) : Returned :=
  match op with
  | OpGetApproved _ =>
      RAddresses (if String.eqb s "" then [] else split COMMA s)
  | _ => RString s
  end.

(** A decoder's result as the result of a method. *)
Definition surfaced {A : Type} (d : Decoded A) : Result Failure A :=
  match d with
  | Ok a => Ok a
  | Err e => Err (Decode e)
  end.

(** The operations of the table whose payload column is "empty". *)
Definition takes_no_argument (op : Operation) : bool :=
  match op with
  | OpName | OpSymbol | OpBaseURI | OpTotalSupply | OpCurrentSupply => true
  | _ => false
  end.

(** The requests among the events of a run, in order. *)
Fixpoint requests (evs : list Event) : list CallRecord :=
  match evs with
  | [] => []
  | EvCall request _ :: evs' => request :: requests evs'
  | EvDecode _ :: evs' => requests evs'
  end.

(** The decodes among the events of a run, in order. *)
Fixpoint decodes (evs : list Event) : list bytes :=
  match evs with
  | [] => []
  | EvCall _ _ :: evs' => decodes evs'
  | EvDecode input :: evs' => input :: decodes evs'
  end.

(** *** The methods as the class declares them

    The name of the method an operation stands for, its arguments in the
    order of the method's signature, and whether the method is declared
    [void]. *)

Definition method_name (op : Operation) : string :=
  match op with
  | OpName => "name"
  | OpSymbol => "symbol"
  | OpTokenURI _ => "tokenURI"
  | OpBaseURI => "baseURI"
  | OpTotalSupply => "totalSupply"
  | OpCurrentSupply => "currentSupply"
  | OpMint _ => "mint"
  | OpTransfer _ _ _ => "transfer"
  | OpApprove _ _ => "approve"
  | OpTransferFrom _ _ _ => "transferFrom"
  | OpGetApproved _ => "getApproved"
  end.

Definition same_method (op1 op2 : Operation) : bool :=
  match op1, op2 with
  | OpName, OpName
  | OpSymbol, OpSymbol
  | OpTokenURI _, OpTokenURI _
  | OpBaseURI, OpBaseURI
  | OpTotalSupply, OpTotalSupply
  | OpCurrentSupply, OpCurrentSupply
  | OpMint _, OpMint _
  | OpTransfer _ _ _, OpTransfer _ _ _
  | OpApprove _ _, OpApprove _ _
  | OpTransferFrom _ _ _, OpTransferFrom _ _ _
  | OpGetApproved _, OpGetApproved _ => true
  | _, _ => false
  end.

Definition arguments (op : Operation) : list Field :=
  match op with
  | OpName | OpSymbol | OpBaseURI | OpTotalSupply | OpCurrentSupply => []
  | OpTokenURI tokenId => [FU64 tokenId]
  | OpMint addressTo => [FString addressTo]
  | OpTransfer toAddress tokenId amount =>
      [FString toAddress; FU64 tokenId; FU64 amount]
  | OpApprove tokenId address => [FU64 tokenId; FString address]
  | OpTransferFrom fromAddress toAddress tokenId =>
      [FString fromAddress; FString toAddress; FU64 tokenId]
  | OpGetApproved tokenId => [FU64 tokenId]
  end.

Definition returns_nothing (op : Operation) : bool :=
  match op with
  | OpMint _ | OpTransfer _ _ _ | OpApprove _ _ | OpTransferFrom _ _ _ => true
  | _ => false
  end.

(** A field as a value of its declared type: a [u64] lies in [0, 2^64), and
    the byte length of a string fits the length prefix. *)
Definition field_type (f : Field) : FieldType :=
  match f with
  | FString _ => TString
  | FU64 _ => TU64
  end.

Definition well_typed (f : Field) : Prop :=
  match f with
  | FString s => Z.of_nat (String.length s) < 2 ^ 32
  | FU64 n => 0 <= n < 2 ^ 64
  end.

(** [args.add(f)] for a field of either type, and the buffer obtained by
    adding a list of fields from left to right. *)
Definition add_field (a : Args) (f : Field) : Args :=
  match f with
  | FString s => add a s
  | FU64 n => add a n
  end.

Definition field_bytes (f : Field) : bytes :=
  match f with
  | FString s => to_bytes s
  | FU64 n => to_bytes n
  end.

(** What follows the request in the events of a run: the decode of the
    response, when the call succeeded and the method has a result. *)
Definition after_request (op : Operation)
  (answer : Result RemoteError bytes) : list Event :=
  match answer with
  | Ok response => if returns_nothing op then [] else [EvDecode response]
  | Err _ => []
  end.

(** ** Facts about the wire format *)

Lemma Z_of_byte_of_Z (n : Z) : Z_of_byte (byte_of_Z n) = n mod 256.
Proof.
  unfold Z_of_byte, byte_of_Z.
  assert (Hr : 0 <= n mod 256 < 256) by (apply Z.mod_pos_bound; lia).
  destruct (Byte.of_N (Z.to_N (n mod 256))) as [b|] eqn:E.
  - apply Byte.to_of_N in E. rewrite E. lia.
  - apply Byte.of_N_None_iff in E. lia.
Qed.

Lemma le_encode_length (width : nat) (n : Z) :
  List.length (le_encode width n) = width.
Proof.
  revert n. induction width as [|w IH]; intros n; simpl; [reflexivity|].
  now rewrite IH.
Qed.

Lemma le_decode_encode (width : nat) (n : Z) :
  le_decode (le_encode width n) = n mod 256 ^ Z.of_nat width.
Proof.
  revert n. induction width as [|w IH]; intros n.
  - simpl. now rewrite Z.mod_1_r.
  - cbn [le_encode le_decode]. rewrite Z_of_byte_of_Z, IH.
    rewrite Nat2Z.inj_succ, Z.pow_succ_r by lia.
    rewrite (Z.rem_mul_r n 256 (256 ^ Z.of_nat w)) by lia.
    reflexivity.
Qed.

Lemma next_uint_encode (width : nat) (n : Z) (rest : bytes) :
  next_uint width (le_encode width n ++ rest)
  = Ok (n mod 256 ^ Z.of_nat width, rest).
Proof.
  unfold next_uint.
  assert (Hlen : List.length (le_encode width n) = width)
    by apply le_encode_length.
  replace (List.length (le_encode width n ++ rest) <? width)%nat with false.
  - rewrite <- Hlen at 1 3.
    rewrite firstn_app, Nat.sub_diag, firstn_all, firstn_O, app_nil_r.
    rewrite skipn_app, Nat.sub_diag, skipn_all. simpl.
    now rewrite le_decode_encode.
  - symmetry. apply Nat.ltb_ge. rewrite length_app. lia.
Qed.

Lemma next_uint_short (width : nat) (bs : bytes) :
  (List.length bs < width)%nat -> next_uint width bs = Err TruncatedNumber.
Proof.
  intros H. unfold next_uint.
  apply Nat.ltb_lt in H. now rewrite H.
Qed.

Lemma list_byte_of_string_length (s : string) :
  List.length (list_byte_of_string s) = String.length s.
Proof.
  unfold list_byte_of_string. rewrite length_map.
  induction s as [|c s IH]; simpl; [reflexivity|]. now rewrite IH.
Qed.

Lemma next_string_encode (s : string) (rest : bytes) :
  Z.of_nat (String.length s) < 2 ^ 32 ->
  next_string (to_bytes s ++ rest) = Ok (s, rest).
Proof.
  intros Hs. unfold next_string. cbn [to_bytes Serializable_string].
  rewrite <- app_assoc, next_uint_encode. cbn [result_bind].
  rewrite list_byte_of_string_length.
  change (256 ^ Z.of_nat LEN_BYTES) with (2 ^ 32).
  rewrite Z.mod_small by lia. rewrite Nat2Z.id.
  rewrite <- (list_byte_of_string_length s).
  replace (List.length (list_byte_of_string s ++ rest)
             <? List.length (list_byte_of_string s))%nat with false.
  - rewrite firstn_app, Nat.sub_diag, firstn_all, firstn_O, app_nil_r.
    rewrite skipn_app, Nat.sub_diag, skipn_all. simpl.
    now rewrite string_of_list_byte_of_string.
  - symmetry. apply Nat.ltb_ge. rewrite length_app. lia.
Qed.

Lemma next_u64_encode (n : u64) (rest : bytes) :
  0 <= n < 2 ^ 64 ->
  next_u64 (to_bytes n ++ rest) = Ok (n, rest).
Proof.
  intros Hn. unfold next_u64. cbn [to_bytes Serializable_u64].
  rewrite next_uint_encode.
  change (256 ^ Z.of_nat U64_BYTES) with (2 ^ 64).
  now rewrite Z.mod_small by lia.
Qed.

Lemma to_bytes_string_nonempty (s : string) (rest : bytes) :
  to_bytes s ++ rest <> [].
Proof.
  cbn [to_bytes Serializable_string]. simpl. discriminate.
Qed.

Lemma bytesToString_encode (s : string) (rest : bytes) :
  Z.of_nat (String.length s) < 2 ^ 32 ->
  bytesToString (to_bytes s ++ rest) = Ok s.
Proof.
  intros Hs. unfold bytesToString.
  destruct (to_bytes s ++ rest) as [|b bs] eqn:E.
  - now apply to_bytes_string_nonempty in E.
  - rewrite <- E, next_string_encode by assumption. reflexivity.
Qed.

(** ** Facts about [split] *)

Lemma split_nonempty (c : ascii) (s : string) : split c s <> [].
Proof.
  destruct s as [|d s]; simpl; [discriminate|].
  destruct (Ascii.eqb d c); [discriminate|].
  destruct (split c s); discriminate.
Qed.

Lemma split_length (c : ascii) (s : string) :
  List.length (split c s) = S (occurrences c s).
Proof.
  induction s as [|d s IH]; simpl; [reflexivity|].
  destruct (Ascii.eqb d c); simpl.
  - now rewrite IH.
  - pose proof (split_nonempty c s) as Hne.
    destruct (split c s); [contradiction|]. simpl in *. exact IH.
Qed.

Lemma concat_extend_first (sep : string) (d : ascii) (seg : string)
  (segs : list string) :
  String.concat sep (String d seg :: segs)
  = String d (String.concat sep (seg :: segs)).
Proof.
  destruct segs; reflexivity.
Qed.

Lemma split_concat (c : ascii) (s : string) :
  String.concat (String c EmptyString) (split c s) = s.
Proof.
  induction s as [|d s IH]; simpl; [reflexivity|].
  pose proof (split_nonempty c s) as Hne.
  destruct (split c s) as [|seg segs]; [contradiction|].
  destruct (Ascii.eqb d c) eqn:E.
  - apply Ascii.eqb_eq in E. subst d.
    change (String.concat (String c EmptyString) (EmptyString :: seg :: segs))
      with (String c (String.concat (String c EmptyString) (seg :: segs))).
    now rewrite IH.
  - cbn [extend_first]. now rewrite concat_extend_first, IH.
Qed.

Lemma split_free (c : ascii) (s : string) :
  Forall (free_of c) (split c s).
Proof.
  induction s as [|d s IH]; simpl.
  - constructor; [reflexivity | constructor].
  - destruct (Ascii.eqb d c) eqn:E.
    + constructor; [reflexivity | exact IH].
    + destruct (split c s) as [|seg segs]; simpl.
      * constructor; [|constructor]. unfold free_of. simpl. now rewrite E.
      * inversion IH; subst. constructor; [|assumption].
        unfold free_of in *. simpl. now rewrite E.
Qed.

(** ** Running a method

    Every method reads [this._origin], sends one request and, for the
    methods with a result, applies one decoder to the response.  The tactics
    below expose that run: [unfold_methods] opens the method and the monad,
    [step_run] follows the branches on the answer of the remote side and on
    the decoder's result. *)

Ltac unfold_methods :=
  cbn [invoke];
  unfold fmap, name, symbol, tokenURI, baseURI, totalSupply, currentSupply,
    mint, transfer, approve, transferFrom, getApproved;
  unfold bind, call, this_origin, decode, ret;
  cbn [outcome final emitted this world].

Ltac step_run :=
  repeat match goal with
  | |- context [env_call ?w ?r] =>
      let answer := fresh "answer" in
      let w' := fresh "w'" in
      let Hcall := fresh "Hcall" in
      destruct (env_call w r) as [answer w'] eqn:Hcall;
      destruct answer;
      cbn [outcome final emitted this world]
  | |- context [bytesToString ?r] =>
      let Hdec := fresh "Hdec" in
      destruct (bytesToString r) eqn:Hdec;
      cbn [outcome final emitted this world]
  | |- context [bytesToU64 ?r] =>
      let Hdec := fresh "Hdec" in
      destruct (bytesToU64 r) eqn:Hdec;
      cbn [outcome final emitted this world]
  | |- context [String.eqb ?a EmptyString] =>
      let Hcmp := fresh "Hcmp" in
      destruct (String.eqb a EmptyString) eqn:Hcmp;
      cbn [outcome final emitted this world]
  end.

(** From a membership in a short, explicit list of events to the equations
    it stands for. *)
Ltac locate_event H :=
  cbn [app In] in H;
  repeat (destruct H as [H|H]);
  try discriminate H; try contradiction;
  try (injection H as ? ?; subst).

(** Two case analyses of the same decode agree. *)
Ltac merge_decodes :=
  repeat match goal with
  | H1 : ?f ?r = _, H2 : ?f ?r = _ |- _ =>
      rewrite H1 in H2;
      first [discriminate H2 | injection H2 as ?; subst]
  end.

(** The run of a method whose result is read with [bytesToString], once the
    remote side has answered [response]: the one decode is that of
    [response], and the method hands back what the decoder gave. *)
Lemma string_operation_run (op : Operation) (st : State)
  (request : CallRecord) (response : bytes) :
  returns_string op = true ->
  In (EvCall request (Ok response)) (emitted (invoke op st)) ->
  decodes (emitted (invoke op st)) = [response] /\
  outcome (invoke op st)
  = surfaced (result_map (string_view op) (bytesToString response)).
Proof.
  intros Hop Hin. revert Hin.
  destruct op; try discriminate Hop; unfold_methods; step_run;
    intros Hin; locate_event Hin; merge_decodes;
    cbn [result_map surfaced string_view decodes];
    try rewrite Hcmp; split; reflexivity.
Qed.

Lemma getApproved_run (tokenId : u64) (st : State)
  (request : CallRecord) (response : bytes) :
  In (EvCall request (Ok response)) (emitted (getApproved tokenId st)) ->
  outcome (getApproved tokenId st)
  = surfaced (result_map
                (fun s => if String.eqb s "" then [] else split COMMA s)
                (bytesToString response)).
Proof.
  intros Hin. revert Hin. unfold_methods. step_run;
    intros Hin; locate_event Hin; merge_decodes;
    cbn [result_map surfaced]; try rewrite Hcmp; reflexivity.
Qed.

Lemma supply_run (op : Operation) (st : State)
  (request : CallRecord) (response : bytes) :
  op = OpTotalSupply \/ op = OpCurrentSupply ->
  In (EvCall request (Ok response)) (emitted (invoke op st)) ->
  decodes (emitted (invoke op st)) = [response] /\
  outcome (invoke op st) = surfaced (result_map RU64 (bytesToU64 response)).
Proof.
  intros [Hop|Hop] Hin; subst op; revert Hin; unfold_methods; step_run;
    intros Hin; locate_event Hin; merge_decodes;
    cbn [result_map surfaced decodes]; split; reflexivity.
Qed.

(** ** The claims *)

(** C1: when the response of [getApproved] decodes to the empty string, the
    method returns the empty list, of length 0, and not the one-element list
    holding the empty string. *)
Theorem getApproved_empty_string (tokenId : u64) (st : State)
  (request : CallRecord) (response : bytes) :
  In (EvCall request (Ok response)) (emitted (getApproved tokenId st)) ->
  bytesToString response = Ok EmptyString ->
  outcome (getApproved tokenId st) = Ok [] /\
  outcome (getApproved tokenId st) <> Ok [EmptyString].
Proof.
  intros Hin Hdec.
  rewrite (getApproved_run _ _ _ _ Hin), Hdec. cbn.
  split; [reflexivity | discriminate].
Qed.

(** C2: name, symbol, tokenURI, baseURI and getApproved apply the string
    decoder to the response buffer and hand back what it read (getApproved
    after splitting it); the decoder reads a length-prefixed string from the
    start of the buffer, whatever follows it, and reads the empty string
    from the empty buffer. *)
Theorem string_results_are_length_prefixed (op : Operation) (st : State)
  (request : CallRecord) (response : bytes) :
  returns_string op = true ->
  In (EvCall request (Ok response)) (emitted (invoke op st)) ->
  decodes (emitted (invoke op st)) = [response] /\
  outcome (invoke op st)
  = surfaced (result_map (string_view op) (bytesToString response)) /\
  (response = [] -> outcome (invoke op st) = Ok (string_view op EmptyString)) /\
  (forall (s : string) (rest : bytes),
      Z.of_nat (String.length s) < 2 ^ 32 ->
      response = to_bytes s ++ rest ->
      outcome (invoke op st) = Ok (string_view op s)).
Proof.
  intros Hop Hin.
  destruct (string_operation_run op st request response Hop Hin) as [Hd Ho].
  repeat split; try assumption.
  - intros ->. rewrite Ho. reflexivity.
  - intros s rest Hs ->. rewrite Ho, bytesToString_encode by assumption.
    reflexivity.
Qed.

(** C3: on a response of fewer than 8 bytes the 64-bit decoder fails, and
    totalSupply and currentSupply fail with that decode error; they return
    no value, truncated or padded. *)
Theorem short_u64_response_is_decode_error (op : Operation) (st : State)
  (request : CallRecord) (response : bytes) :
  op = OpTotalSupply \/ op = OpCurrentSupply ->
  In (EvCall request (Ok response)) (emitted (invoke op st)) ->
  (List.length response < 8)%nat ->
  bytesToU64 response = Err TruncatedNumber /\
  outcome (invoke op st) = Err (Decode TruncatedNumber) /\
  (forall (e : RemoteError), outcome (invoke op st) <> Err (Transport e)) /\
  (forall (r : Returned), outcome (invoke op st) <> Ok r).
Proof.
  intros Hop Hin Hlen.
  destruct (supply_run op st request response Hop Hin) as [_ Ho].
  assert (Hdec : bytesToU64 response = Err TruncatedNumber).
  { unfold bytesToU64, next_u64. now rewrite next_uint_short. }
  rewrite Ho, Hdec. cbn.
  repeat split; try reflexivity; intros; discriminate.
Qed.

(** C4: when the call primitive fails, the operation fails with the same
    error; the failed request is the only thing the run did: no second
    request and no decode. *)
Theorem call_failure_propagates (op : Operation) (st : State)
  (request : CallRecord) (e : RemoteError) :
  In (EvCall request (Err e)) (emitted (invoke op st)) ->
  outcome (invoke op st) = Err (Transport e) /\
  emitted (invoke op st) = [EvCall request (Err e)] /\
  requests (emitted (invoke op st)) = [request] /\
  decodes (emitted (invoke op st)) = [].
Proof.
  intros Hin. revert Hin.
  destruct op; unfold_methods; step_run; intros Hin; locate_event Hin;
    repeat split; reflexivity.
Qed.

(** C5: every operation sends exactly one request, and the coin amount of
    that request is zero, whatever the arguments. *)
Theorem coins_always_zero (op : Operation) (st : State) :
  map transferAmount (requests (emitted (invoke op st))) = [0].
Proof.
  destruct op; unfold_methods; step_run; reflexivity.
Qed.

(** C6: name, symbol, baseURI, totalSupply and currentSupply send the
    serialization of [NoArg] as payload, which is the buffer of length 0;
    it is not an integer field holding zero, of any width. *)
Theorem no_argument_payload_is_empty (op : Operation) (st : State) :
  takes_no_argument op = true ->
  map payload (requests (emitted (invoke op st))) = [serialize NoArg] /\
  serialize NoArg = [] /\
  (forall width : nat, (0 < width)%nat ->
     serialize NoArg <> le_encode width 0).
Proof.
  intros Hop. repeat split.
  - destruct op; try discriminate Hop; unfold_methods; step_run; reflexivity.
  - intros width Hw Heq. destruct width; [lia | discriminate Heq].
Qed.

(** C7: the payload that transfer sends holds the string, then the token
    identifier, then the amount: decoded against the schema
    [string, u64, u64] it gives back [toAddress], [tokenId] and [amount] in
    that order. *)
Theorem transfer_payload_order (toAddress : string) (tokenId amount : u64)
  (st : State) :
  Z.of_nat (String.length toAddress) < 2 ^ 32 ->
  0 <= tokenId < 2 ^ 64 ->
  0 <= amount < 2 ^ 64 ->
  map (fun r => (entryPoint r, decode_fields [TString; TU64; TU64] (payload r)))
      (requests (emitted (transfer toAddress tokenId amount st)))
  = [("transfer"%string,
      Ok [FString toAddress; FU64 tokenId; FU64 amount])].
Proof.
  intros Hs Ht Ha.
  assert (Hpayload :
    decode_fields [TString; TU64; TU64]
      (serialize (add (add (add new_Args toAddress) tokenId) amount))
    = Ok [FString toAddress; FU64 tokenId; FU64 amount]).
  { unfold serialize, add, new_Args. cbn [serialized app decode_fields].
    rewrite <- app_assoc, next_string_encode by assumption.
    cbn [result_bind].
    rewrite next_u64_encode by assumption. cbn [result_bind].
    rewrite <- (app_nil_r (to_bytes amount)), next_u64_encode by assumption.
    reflexivity. }
  unfold_methods. step_run; cbn [app requests map entryPoint payload];
    now rewrite Hpayload.
Qed.

(** C8: when the response of [getApproved] decodes to a non-empty string,
    the method returns its comma-separated segments in order: joined again
    with commas they give the string back, and no segment holds a comma.
    For "addrA,addrB,addrC" the list is ["addrA"; "addrB"; "addrC"]. *)
Theorem getApproved_segments_in_order (tokenId : u64) (st : State)
  (request : CallRecord) (response : bytes) (addresses : string) :
  In (EvCall request (Ok response)) (emitted (getApproved tokenId st)) ->
  bytesToString response = Ok addresses ->
  addresses <> EmptyString ->
  exists l : list string,
    outcome (getApproved tokenId st) = Ok l /\
    String.concat "," l = addresses /\
    Forall (free_of COMMA) l /\
    (addresses = "addrA,addrB,addrC"%string ->
     l = ["addrA"; "addrB"; "addrC"]%string).
Proof.
  intros Hin Hdec Hne.
  exists (split COMMA addresses).
  rewrite (getApproved_run _ _ _ _ Hin), Hdec. cbn [result_map surfaced].
  apply String.eqb_neq in Hne. rewrite Hne.
  repeat split.
  - apply split_concat.
  - apply split_free.
  - intros ->. reflexivity.
Qed.

(** C9: the one request of every operation is addressed to [this._origin],
    which is the identity given to the constructor, and the run leaves the
    wrapper as it found it. *)
Theorem target_is_origin_and_wrapper_unchanged :
  (forall at_ : Address, _origin (constructor at_) = at_) /\
  (forall (op : Operation) (st : State),
      map target (requests (emitted (invoke op st))) = [_origin (this st)] /\
      this (final (invoke op st)) = this st).
Proof.
  split; [reflexivity|].
  intros op st.
  destruct op; unfold_methods; step_run; split; reflexivity.
Qed.

(** C10: for a non-empty decoded string [getApproved] returns the plain
    comma split: one segment more than there are commas, so never the empty
    list, with an empty segment for every leading, trailing or doubled
    comma; "a,,b" gives ["a"; ""; "b"] and "," gives [""; ""]. *)
Theorem getApproved_plain_split (tokenId : u64) (st : State)
  (request : CallRecord) (response : bytes) (addresses : string) :
  In (EvCall request (Ok response)) (emitted (getApproved tokenId st)) ->
  bytesToString response = Ok addresses ->
  addresses <> EmptyString ->
  outcome (getApproved tokenId st) = Ok (split COMMA addresses) /\
  List.length (split COMMA addresses) = S (occurrences COMMA addresses) /\
  outcome (getApproved tokenId st) <> Ok [] /\
  (addresses = "a,,b"%string ->
   outcome (getApproved tokenId st) = Ok ["a"; ""; "b"]%string) /\
  (addresses = ","%string ->
   outcome (getApproved tokenId st) = Ok [""; ""]%string).
Proof.
  intros Hin Hdec Hne.
  rewrite (getApproved_run _ _ _ _ Hin), Hdec. cbn [result_map surfaced].
  apply String.eqb_neq in Hne. rewrite Hne.
  repeat split.
  - apply split_length.
  - intros Heq. injection Heq as Heq. now apply split_nonempty in Heq.
  - intros ->. reflexivity.
  - intros ->. reflexivity.
Qed.

(** ** Further properties of the wrapper *)

(** The request of an operation: addressed to [this._origin], at the entry
    point named like the method, with the arguments added in the order of
    the signature, and without coins. *)
Lemma invoke_requests (op : Operation) (st : State) :
  requests (emitted (invoke op st))
  = [mkCallRecord (_origin (this st)) (method_name op)
       (serialize (fold_left add_field (arguments op) new_Args)) 0].
Proof.
  destruct op; unfold_methods; step_run; reflexivity.
Qed.

Lemma fold_add_field_serialized (fs : list Field) (a : Args) :
  serialized (fold_left add_field fs a)
  = serialized a ++ List.concat (map field_bytes fs).
Proof.
  revert a. induction fs as [|f fs IH]; intros a; cbn [fold_left map List.concat].
  - now rewrite app_nil_r.
  - rewrite IH. destruct f; cbn [add_field add serialized field_bytes];
      now rewrite <- app_assoc.
Qed.

Lemma decode_fields_encode (fs : list Field) :
  Forall well_typed fs ->
  decode_fields (map field_type fs) (List.concat (map field_bytes fs))
  = Ok fs.
Proof.
  induction 1 as [|f fs Hf _ IH]; [reflexivity|].
  cbn [map List.concat]. destruct f as [s|n]; cbn [field_type field_bytes decode_fields].
  - rewrite next_string_encode by exact Hf. cbn [result_bind].
    now rewrite IH.
  - rewrite next_u64_encode by exact Hf. cbn [result_bind].
    now rewrite IH.
Qed.

Lemma split_free_whole (c : ascii) (s : string) :
  free_of c s -> split c s = [s].
Proof.
  unfold free_of. induction s as [|d s IH]; intros Hfree; [reflexivity|].
  cbn [occurrences split] in *.
  destruct (Ascii.eqb d c); [discriminate Hfree|].
  now rewrite IH.
Qed.

Lemma split_free_then_separator (c : ascii) (s t : string) :
  free_of c s ->
  split c (s ++ String c t) = s :: split c t.
Proof.
  unfold free_of. induction s as [|d s IH]; intros Hfree.
  - cbn [append split]. now rewrite Ascii.eqb_refl.
  - cbn [occurrences append split] in *.
    destruct (Ascii.eqb d c); [discriminate Hfree|].
    now rewrite IH.
Qed.

Lemma split_of_concat (c : ascii) (l : list string) :
  Forall (free_of c) l -> l <> [] ->
  split c (String.concat (String c EmptyString) l) = l.
Proof.
  induction 1 as [|s l Hs Hl IH]; intros Hne; [contradiction|].
  destruct l as [|s' l'].
  - cbn [String.concat]. now apply split_free_whole.
  - change (String.concat (String c EmptyString) (s :: s' :: l'))
      with (s ++ String c (String.concat (String c EmptyString) (s' :: l')))%string.
    rewrite split_free_then_separator by assumption.
    now rewrite IH.
Qed.

Lemma concat_empty (sep : string) (l : list string) :
  sep <> EmptyString ->
  String.concat sep l = EmptyString -> l = [] \/ l = [EmptyString].
Proof.
  intros Hsep Hjoin. destruct l as [|s [|s' l']].
  - now left.
  - right. cbn in Hjoin. now subst.
  - exfalso. cbn [String.concat] in Hjoin.
    destruct s; cbn in Hjoin; [|discriminate].
    destruct sep; [now apply Hsep | discriminate].
Qed.

(** X1: mint, transfer, approve and transferFrom drop the response: they
    succeed exactly when the call does, whatever bytes come back, never
    decode anything and never end in a decode error. *)
Theorem void_methods_ignore_response (op : Operation) (st : State) :
  returns_nothing op = true ->
  decodes (emitted (invoke op st)) = [] /\
  (forall d : DecodeError, outcome (invoke op st) <> Err (Decode d)) /\
  (forall (request : CallRecord) (answer : Result RemoteError bytes),
      In (EvCall request answer) (emitted (invoke op st)) ->
      outcome (invoke op st)
      = match answer with
        | Ok _ => Ok RVoid
        | Err e => Err (Transport e)
        end).
Proof.
  intros Hop.
  destruct op; try discriminate Hop; unfold_methods; step_run;
    (split; [reflexivity | split];
     [ intros; discriminate
     | intros request answer Hin; locate_event Hin; reflexivity ]).
Qed.

(** X2: a run is one exchange with the remote side, followed by one decode
    of the very bytes that came back when the call succeeded and the method
    has a result, and by nothing otherwise; the world after the run is the
    one the exchange left. *)
Theorem run_is_one_exchange (op : Operation) (st : State) :
  exists (request : CallRecord) (answer : Result RemoteError bytes),
    env_call (world st) request = (answer, world (final (invoke op st))) /\
    emitted (invoke op st) = EvCall request answer :: after_request op answer.
Proof.
  destruct op; unfold_methods; step_run;
    eexists; eexists; (split; [eassumption | reflexivity]).
Qed.

(** X3: the entry point of the request is the name of the method itself,
    whatever the arguments and the state, so two operations reach the same
    entry point only if they are the same method. *)
Theorem entry_point_is_method_name (op : Operation) (st : State) :
  map entryPoint (requests (emitted (invoke op st))) = [method_name op] /\
  (forall op' : Operation,
      method_name op = method_name op' -> same_method op op' = true).
Proof.
  split.
  - now rewrite invoke_requests.
  - intros op' Heq. destruct op, op'; cbn in Heq |- *;
      solve [reflexivity | discriminate Heq].
Qed.

(** X4: for every operation the payload holds the arguments in the order of
    the method's signature: decoded against the types of the signature it
    gives the arguments back. *)
Theorem payload_follows_signature (op : Operation) (st : State) :
  Forall well_typed (arguments op) ->
  map (fun r => decode_fields (map field_type (arguments op)) (payload r))
      (requests (emitted (invoke op st)))
  = [Ok (arguments op)].
Proof.
  intros Hty. rewrite invoke_requests. cbn [map payload].
  unfold serialize. rewrite fold_add_field_serialized.
  cbn [new_Args serialized app].
  f_equal. now apply decode_fields_encode.
Qed.

(** X5: two calls of methods with the same parameter types that send the
    same payload were given the same arguments: the length prefix keeps
    adjacent strings apart. *)
Theorem payload_determines_arguments (op1 op2 : Operation) (st1 st2 : State) :
  Forall well_typed (arguments op1) ->
  Forall well_typed (arguments op2) ->
  map field_type (arguments op1) = map field_type (arguments op2) ->
  map payload (requests (emitted (invoke op1 st1)))
  = map payload (requests (emitted (invoke op2 st2))) ->
  arguments op1 = arguments op2.
Proof.
  intros Hty1 Hty2 Hschema Hpayload.
  rewrite !invoke_requests in Hpayload. cbn [map payload] in Hpayload.
  injection Hpayload as Hpayload.
  unfold serialize in Hpayload.
  rewrite !fold_add_field_serialized in Hpayload.
  cbn [new_Args serialized app] in Hpayload.
  pose proof (decode_fields_encode _ Hty1) as H1.
  pose proof (decode_fields_encode _ Hty2) as H2.
  rewrite Hschema, Hpayload, H2 in H1.
  now injection H1.
Qed.

(** X6: whatever the remote side answers, getApproved never returns the
    one-element list holding the empty string, and no element of a list it
    returns holds a comma. *)
Theorem getApproved_never_single_empty (tokenId : u64) (st : State) :
  outcome (getApproved tokenId st) <> Ok [EmptyString] /\
  (forall l : list string,
      outcome (getApproved tokenId st) = Ok l -> Forall (free_of COMMA) l).
Proof.
  unfold_methods. step_run; split;
    try discriminate; try (intros l Hl; discriminate Hl).
  - intros l Hl. injection Hl as <-. constructor.
  - intros Heq. injection Heq as Heq.
    pose proof (split_concat COMMA a0) as Hjoin.
    rewrite Heq in Hjoin. cbn in Hjoin. subst a0. discriminate Hcmp.
  - intros l Hl. injection Hl as <-. apply split_free.
Qed.

(** X7: when the response decodes to a list of comma-free strings joined
    with commas, getApproved returns that very list, for every such list but
    the one-element list holding the empty string. *)
Theorem getApproved_inverts_join (tokenId : u64) (st : State)
  (request : CallRecord) (response : bytes) (l : list string) :
  In (EvCall request (Ok response)) (emitted (getApproved tokenId st)) ->
  bytesToString response = Ok (String.concat "," l) ->
  Forall (free_of COMMA) l ->
  l <> [EmptyString] ->
  outcome (getApproved tokenId st) = Ok l.
Proof.
  intros Hin Hdec Hfree Hne.
  rewrite (getApproved_run _ _ _ _ Hin), Hdec. cbn [result_map surfaced].
  destruct (String.eqb (String.concat "," l) "") eqn:Hcmp.
  - apply String.eqb_eq in Hcmp.
    apply concat_empty in Hcmp; [|discriminate].
    destruct Hcmp as [->| ->]; [reflexivity | contradiction].
  - f_equal. apply (split_of_concat COMMA); [assumption|].
    intros ->. discriminate Hcmp.
Qed.

(** X9: what an operation hands back depends on the answer of the remote
    side alone: two runs of the same operation that got the same answer end
    the same way, whatever the wrapper's identity and the world. *)
Theorem outcome_depends_on_answer_only (op : Operation) (st1 st2 : State)
  (request1 request2 : CallRecord) (answer : Result RemoteError bytes) :
  In (EvCall request1 answer) (emitted (invoke op st1)) ->
  In (EvCall request2 answer) (emitted (invoke op st2)) ->
  outcome (invoke op st1) = outcome (invoke op st2).
Proof.
  intros Hin1 Hin2. revert Hin1 Hin2.
  destruct op; unfold_methods; step_run;
    intros Hin1 Hin2; locate_event Hin1; locate_event Hin2;
    merge_decodes; try discriminate; try reflexivity; congruence.
Qed.

End Wrapper.

Arguments mkCallRecord {Address} _ _ _ _.
Arguments target {Address} _.
Arguments entryPoint {Address} _.
Arguments payload {Address} _.
Arguments transferAmount {Address} _.
Arguments mkSFTWrapper {Address} _.
Arguments _origin {Address} _.
Arguments constructor {Address} _.
Arguments mkState {Address World} _ _.
Arguments this {Address World} _.
Arguments world {Address World} _.
Arguments Transport {RemoteError} _.
Arguments Decode {RemoteError} _.
Arguments EvCall {Address RemoteError} _ _.
Arguments EvDecode {Address RemoteError} _.
Arguments outcome {Address RemoteError World A} _.
Arguments final {Address RemoteError World A} _.
Arguments emitted {Address RemoteError World A} _.
Arguments requests {Address RemoteError} _.
Arguments decodes {Address RemoteError} _.
Arguments getApproved {Address RemoteError World} _ _ _.
Arguments transfer {Address RemoteError World} _ _ _ _ _.
Arguments invoke {Address RemoteError World} _ _ _.

(** ** The claims at concrete inputs

    A wrapper built on the identity "AS1sft", a world without content, and a
    remote side that gives the same answer to every request. *)

Lemma getApproved_empty_string_witness :
  outcome (getApproved (answering (E := string) []) 7
             (mkState (constructor "AS1sft"%string) tt)) = Ok [] /\
  outcome (getApproved (answering (E := string) []) 7
             (mkState (constructor "AS1sft"%string) tt)) <> Ok [EmptyString].
Proof.
  eapply (getApproved_empty_string string string unit (answering []) 7
            (mkState (constructor "AS1sft"%string) tt)).
  - left. reflexivity.
  - reflexivity.
Defined.

Lemma string_results_are_length_prefixed_witness :
  outcome (invoke (answering (E := string) (to_bytes "Massa SFT"%string))
             OpName (mkState (constructor "AS1sft"%string) tt))
  = Ok (RString "Massa SFT").
Proof.
  destruct (string_results_are_length_prefixed string string unit
              (answering (to_bytes "Massa SFT"%string)) OpName
              (mkState (constructor "AS1sft"%string) tt)
              (mkCallRecord "AS1sft"%string "name"%string [] 0)
              (to_bytes "Massa SFT"%string))
    as (_ & _ & _ & Hread).
  - reflexivity.
  - left. reflexivity.
  - apply (Hread "Massa SFT"%string []).
    + vm_compute. reflexivity.
    + reflexivity.
Defined.

Lemma short_u64_response_is_decode_error_witness :
  bytesToU64 [x01; x02; x03] = Err TruncatedNumber /\
  outcome (invoke (answering (E := string) [x01; x02; x03]) OpTotalSupply
             (mkState (constructor "AS1sft"%string) tt))
  = Err (Decode TruncatedNumber) /\
  (forall e : string,
     outcome (invoke (answering [x01; x02; x03]) OpTotalSupply
                (mkState (constructor "AS1sft"%string) tt))
     <> Err (Transport e)) /\
  (forall r : Returned,
     outcome (invoke (answering (E := string) [x01; x02; x03]) OpTotalSupply
                (mkState (constructor "AS1sft"%string) tt))
     <> Ok r).
Proof.
  eapply (short_u64_response_is_decode_error string string unit
            (answering [x01; x02; x03]) OpTotalSupply
            (mkState (constructor "AS1sft"%string) tt)).
  - left. reflexivity.
  - left. reflexivity.
  - simpl. lia.
Defined.

Lemma call_failure_propagates_witness :
  outcome (invoke (failing "entry point missing"%string) (OpMint "AU1alice")
             (mkState (constructor "AS1sft"%string) tt))
  = Err (Transport "entry point missing"%string) /\
  emitted (invoke (failing "entry point missing"%string) (OpMint "AU1alice")
             (mkState (constructor "AS1sft"%string) tt))
  = [EvCall (mkCallRecord "AS1sft"%string "mint"%string
               (to_bytes "AU1alice"%string) 0)
            (Err "entry point missing"%string)] /\
  requests (emitted (invoke (failing "entry point missing"%string)
                       (OpMint "AU1alice")
                       (mkState (constructor "AS1sft"%string) tt)))
  = [mkCallRecord "AS1sft"%string "mint"%string
       (to_bytes "AU1alice"%string) 0] /\
  decodes (emitted (invoke (failing "entry point missing"%string)
                      (OpMint "AU1alice")
                      (mkState (constructor "AS1sft"%string) tt)))
  = [].
Proof.
  apply (call_failure_propagates string string unit
           (failing "entry point missing"%string) (OpMint "AU1alice")
           (mkState (constructor "AS1sft"%string) tt)).
  left. reflexivity.
Defined.

Lemma no_argument_payload_is_empty_witness :
  map payload
      (requests (emitted (invoke (answering (E := string) []) OpCurrentSupply
                            (mkState (constructor "AS1sft"%string) tt))))
  = [serialize NoArg] /\
  serialize NoArg = [] /\
  (forall width : nat, (0 < width)%nat ->
     serialize NoArg <> le_encode width 0).
Proof.
  apply (no_argument_payload_is_empty string string unit (answering [])
           OpCurrentSupply (mkState (constructor "AS1sft"%string) tt)).
  reflexivity.
Defined.

Lemma transfer_payload_order_witness :
  map (fun r => (entryPoint r,
                 decode_fields [TString; TU64; TU64] (payload r)))
      (requests (emitted (transfer (answering (E := string) []) "addr1" 5 3
                            (mkState (constructor "AS1sft"%string) tt))))
  = [("transfer"%string, Ok [FString "addr1"; FU64 5; FU64 3])].
Proof.
  apply (transfer_payload_order string string unit (answering [])
           "addr1" 5 3 (mkState (constructor "AS1sft"%string) tt)).
  - vm_compute. reflexivity.
  - lia.
  - lia.
Defined.

Lemma getApproved_segments_in_order_witness :
  exists l : list string,
    outcome (getApproved
               (answering (E := string) (to_bytes "addrA,addrB,addrC"%string))
               7 (mkState (constructor "AS1sft"%string) tt)) = Ok l /\
    String.concat "," l = "addrA,addrB,addrC"%string /\
    Forall (free_of COMMA) l /\
    ("addrA,addrB,addrC"%string = "addrA,addrB,addrC"%string ->
     l = ["addrA"; "addrB"; "addrC"]%string).
Proof.
  eapply (getApproved_segments_in_order string string unit
            (answering (to_bytes "addrA,addrB,addrC"%string)) 7
            (mkState (constructor "AS1sft"%string) tt)).
  - left. reflexivity.
  - reflexivity.
  - discriminate.
Defined.

Lemma getApproved_plain_split_witness :
  outcome (getApproved (answering (E := string) (to_bytes "a,,b"%string)) 7
             (mkState (constructor "AS1sft"%string) tt))
  = Ok ["a"; ""; "b"]%string.
Proof.
  destruct (getApproved_plain_split string string unit
              (answering (to_bytes "a,,b"%string)) 7
              (mkState (constructor "AS1sft"%string) tt)
              (mkCallRecord "AS1sft"%string "getApproved"%string
                 (to_bytes 7) 0)
              (to_bytes "a,,b"%string) "a,,b"%string)
    as (_ & _ & _ & Hex & _).
  - left. reflexivity.
  - reflexivity.
  - discriminate.
  - apply Hex. reflexivity.
Defined.

(** X8: the request an operation sends is fixed by the wrapper and the
    arguments: it is the same against any two remote sides, in any two
    worlds, whatever they answer. *)
Theorem request_independent_of_remote_side
  (Address RemoteError1 RemoteError2 World1 World2 : Type)
  (env1 : World1 -> CallRecord Address -> Result RemoteError1 bytes * World1)
  (env2 : World2 -> CallRecord Address -> Result RemoteError2 bytes * World2)
  (op : Operation) (self : SFTWrapper Address) (w1 : World1) (w2 : World2) :
  requests (emitted (invoke env1 op (mkState self w1)))
  = requests (emitted (invoke env2 op (mkState self w2))).
Proof.
  now rewrite !invoke_requests.
Qed.

(** ** The further properties at concrete inputs *)

Lemma void_methods_ignore_response_witness :
  outcome (invoke (answering (E := string) [x01; xff]) (OpApprove 7 "AU1bob")
             (mkState (constructor "AS1sft"%string) tt))
  = Ok RVoid.
Proof.
  destruct (void_methods_ignore_response string string unit
              (answering [x01; xff]) (OpApprove 7 "AU1bob")
              (mkState (constructor "AS1sft"%string) tt))
    as (_ & _ & Hout).
  - reflexivity.
  - apply (Hout (mkCallRecord "AS1sft"%string "approve"%string
                   (to_bytes 7 ++ to_bytes "AU1bob"%string) 0)
                (Ok [x01; xff])).
    left. reflexivity.
Defined.

Lemma payload_follows_signature_witness :
  map (fun r => decode_fields [TU64; TString] (payload r))
      (requests (emitted (invoke (answering (E := string) [])
                            (OpApprove 7 "AU1bob")
                            (mkState (constructor "AS1sft"%string) tt))))
  = [Ok [FU64 7; FString "AU1bob"]].
Proof.
  apply (payload_follows_signature string string unit (answering [])
           (OpApprove 7 "AU1bob") (mkState (constructor "AS1sft"%string) tt)).
  repeat constructor; cbn; lia.
Defined.

Lemma payload_determines_arguments_witness :
  arguments (OpTransferFrom "ab" "c" 1) = arguments (OpTransferFrom "ab" "c" 1).
Proof.
  apply (payload_determines_arguments string string unit (answering [])
           (OpTransferFrom "ab" "c" 1) (OpTransferFrom "ab" "c" 1)
           (mkState (constructor "AS1sft"%string) tt)
           (mkState (constructor "AS2sft"%string) tt)).
  - repeat constructor; cbn; lia.
  - repeat constructor; cbn; lia.
  - reflexivity.
  - reflexivity.
Defined.

Lemma getApproved_inverts_join_witness :
  outcome (getApproved
             (answering (E := string) (to_bytes "AU1alice,AU1bob"%string)) 7
             (mkState (constructor "AS1sft"%string) tt))
  = Ok ["AU1alice"; "AU1bob"]%string.
Proof.
  eapply (getApproved_inverts_join string string unit
            (answering (to_bytes "AU1alice,AU1bob"%string)) 7
            (mkState (constructor "AS1sft"%string) tt)).
  - left. reflexivity.
  - reflexivity.
  - repeat constructor.
  - discriminate.
Defined.

Lemma outcome_depends_on_answer_only_witness :
  outcome (invoke (answering (E := string) (to_bytes "Massa SFT"%string))
             OpName (mkState (constructor "AS1sft"%string) tt))
  = outcome (invoke (answering (E := string) (to_bytes "Massa SFT"%string))
               OpName (mkState (constructor "AS2other"%string) tt)).
Proof.
  eapply (outcome_depends_on_answer_only string string unit
            (answering (to_bytes "Massa SFT"%string)) OpName
            (mkState (constructor "AS1sft"%string) tt)
            (mkState (constructor "AS2other"%string) tt)).
  - left. reflexivity.
  - left. reflexivity.
Defined.
